(** * WineAI: the conversation core of [wineai.py]

    A shallow embedding of the Streamlit script [wineai.py]: the credential
    check, the seeding of the conversation log, the display of the history,
    the choice of the user input, the composition of the outbound request,
    the completion call with its two exception handlers, and the extraction
    of the trailing image-search line.

    Conventions of the embedding.
    - A Python [str] is a [string], one character per code point; code
      points above 255 are outside the model.  The string methods used by
      the script ([find], [in], [split], [join], [strip]) are defined below
      with Python's semantics.
    - A message is a Python dict with the two keys [role] and [content]; it
      is a record here.  Dicts are objects: the conversation log is a list
      of references into a store of dicts, so that [list.copy()] (a shallow
      copy) shares the dicts with the list it copies.
    - [st.session_state] is a record with one optional field per key the
      script uses.
    - What the script shows and the calls it makes to the completion client
      are collected in a trace of events. *)

From Stdlib Require Import ZArith Ascii DecimalString Lia.
From stdpp Require Import base option list strings gmap.

(** ** Python string methods *)

Module PyStr.

Definition nl : string := String "010"%char "".
Definition dq : string := String "034"%char "".

(** [chr(n)] for [n] below 256 *)
Definition chr (n : nat) : string := String (ascii_of_nat n) "".

(** [str.isspace] on one character (code points below 256): the ASCII
    white space 9-13, 28-31 and 32, NEL (133) and NBSP (160). *)
Definition is_space (c : ascii) : bool :=
  let n := nat_of_ascii c in
  ((9 <=? n) && (n <=? 13)) || ((28 <=? n) && (n <=? 32))
  || (n =? 133) || (n =? 160).

(** [s.lstrip()], [s.rstrip()], [s.strip()] *)
Fixpoint lstrip (s : string) : string :=
  match s with
  | String c s' => if is_space c then lstrip s' else s
  | EmptyString => EmptyString
  end.

Fixpoint rstrip (s : string) : string :=
  match s with
  | String c s' =>
      match rstrip s' with
      | EmptyString => if is_space c then EmptyString else String c EmptyString
      | r => String c r
      end
  | EmptyString => EmptyString
  end.

Definition strip (s : string) : string := rstrip (lstrip s).

(** [s[:n]] and [s[n:]] for [n >= 0] *)
Fixpoint take (n : nat) (s : string) : string :=
  match n, s with
  | S n', String c s' => String c (take n' s')
  | _, _ => EmptyString
  end.

Fixpoint drop (n : nat) (s : string) : string :=
  match n, s with
  | S n', String _ s' => drop n' s'
  | _, _ => s
  end.

(** [s.startswith(p)] *)
Fixpoint startswith (p s : string) : bool :=
  match p, s with
  | EmptyString, _ => true
  | String a p', String b s' => if decide (a = b) then startswith p' s' else false
  | String _ _, EmptyString => false
  end.

(** [s.find(sub)]: the lowest index where [sub] occurs, [None] for -1 *)
Fixpoint find (sub s : string) : option nat :=
  if startswith sub s then Some 0
  else match s with
       | String _ s' => S <$> find sub s'
       | EmptyString => None
       end.

(** [sub in s] *)
Definition contains (sub s : string) : bool :=
  match find sub s with Some _ => true | None => false end.

(** [s.split(sep)] for a non-empty [sep]: cut at the first occurrence of
    [sep] and go on after it.  Every cut removes at least one character,
    so [S (length s)] rounds suffice; see [split_fuel_enough]. *)
Fixpoint split_fuel (fuel : nat) (sep s : string) : list string :=
  match fuel with
  | O => [s]
  | S fuel' =>
      match find sep s with
      | None => [s]
      | Some i => take i s :: split_fuel fuel' sep (drop (i + String.length sep) s)
      end
  end.

Definition split (sep s : string) : list string :=
  split_fuel (S (String.length s)) sep s.

(** [sep.join(l)] *)
Fixpoint join (sep : string) (l : list string) : string :=
  match l with
  | [] => EmptyString
  | [x] => x
  | x :: l' => x +:+ sep +:+ join sep l'
  end.

(** [str(n)] for an [int] *)
Definition of_int (n : Z) : string := NilZero.string_of_int (Z.to_int n).

End PyStr.

(** ** Filter serialization (lines 67 and 120) *)

Definition price_range_str (min_price max_price : Z) : string :=
  "$" +:+ PyStr.of_int min_price +:+ " - $" +:+ PyStr.of_int max_price.

Definition filter_context (selected_grape selected_region price_range : string) : string :=
  "User Preferences: Grape=["
  +:+ (if decide (selected_grape ≠ "Any") then selected_grape else "Not Specified")
  +:+ "], Region=["
  +:+ (if decide (selected_region ≠ "Any") then selected_region else "Not Specified")
  +:+ "], Price Range=[" +:+ price_range +:+ "].".

(** ** Extraction of the image-search line (lines 147-156) *)

Definition MARKER : string := "Image Search Suggestion:".

(** [lines[-1]] and [lines[:-1]] *)
Definition py_last (l : list string) : option string := last l.
Definition py_init (l : list string) : list string := removelast l.

(** The block takes the stripped completion text [assistant_response] and
    leaves the pair ([image_search_term], [assistant_response]).  The
    subscript [[1]] raises [IndexError] when the list has one element; the
    handler then keeps both variables as they were. *)
Definition extract_suggestion (assistant_response : string) : option string * string :=
  let image_search_term : option string := None in
  let lines := PyStr.split PyStr.nl assistant_response in
  match py_last lines with
  | Some last_line =>
      if PyStr.contains MARKER last_line then
        match PyStr.split MARKER last_line !! 1 with
        | Some piece =>
            (Some (PyStr.strip piece),
             PyStr.strip (PyStr.join PyStr.nl (py_init lines)))
        | None => (image_search_term, assistant_response)
        end
      else (image_search_term, assistant_response)
  | None => (image_search_term, assistant_response)
  end.

(** ** Messages, the store of dicts and the session state *)

Record message := Message { role : string; content : string }.

#[global] Instance message_eq_dec : EqDecision message.
Proof. solve_decision. Defined.

(** A reference to a dict: its index in the store, in allocation order. *)
Definition ref := nat.

(** [st.session_state] together with the store its dicts live in.  A key
    that is not in [st.session_state] is [None]. *)
Record session := Session {
  store : list message;
  messages : option (list ref);
  selected_prompt : option string
}.

Definition new_session : session :=
  {| store := []; messages := None; selected_prompt := None |}.

(** The references held by [st.session_state.messages] (the key is set from
    line 72 on). *)
Definition message_refs (s : session) : list ref := default [] (messages s).

(** The dicts behind a list of references, in order. *)
Definition deref_all (st : list message) (refs : list ref) : list message :=
  omap (λ r, st !! r) refs.

(** The conversation log as Python reads it: the contents of the dicts of
    [st.session_state.messages]. *)
Definition log (s : session) : list message := deref_all (store s) (message_refs s).

(** A dict display [{...}] allocates a new dict. *)
Definition alloc (st : list message) (m : message) : ref * list message :=
  (length st, st ++ [m]).

(** [st.session_state.messages.append({...})] *)
Definition append_message (m : message) (s : session) : session :=
  let '(r, st) := alloc (store s) m in
  {| store := st;
     messages := Some (message_refs s ++ [r]);
     selected_prompt := selected_prompt s |}.

(** [d["content"] = text] on the dict at [r] *)
Definition set_content (r : ref) (text : string) (st : list message) : list message :=
  alter (λ d, {| role := role d; content := text |}) r st.

(** Every reference of the log points into the store. *)
Definition wf (s : session) : Prop :=
  Forall (λ r, r < length (store s)) (message_refs s).

(** ** What a run shows and calls *)

Inductive event :=
  | Warning (body : string)                (* st.warning(body, icon=...) *)
  | ChatMessage (name body : string)       (* with st.chat_message(name): st.markdown(body) *)
  | Thinking                               (* the placeholder's first text, line 130 *)
  | Placeholder (body : string)            (* message_placeholder.markdown(body) *)
  | Markdown (body : string)               (* st.markdown(body) inside the assistant block *)
  | Error (body : string)                  (* st.error(body, icon=...) *)
  | Completion (request : list message).   (* openai.chat.completions.create(messages=request, ...) *)

#[global] Instance event_eq_dec : EqDecision event.
Proof. solve_decision. Defined.

(** The outcome of [openai.chat.completions.create]: a response whose
    [choices[0].message.content] is a string or [None], an [openai.APIError],
    or any other [Exception]; an exception carries its [str(e)]. *)
Inductive completion :=
  | Reply (content : option string)
  | APIError (e : string)
  | OtherError (e : string).

(** Truth value of [None], of a string, of an optional string *)
Definition truthy (o : option string) : option string :=
  match o with
  | Some text => if decide (text = "") then None else Some text
  | None => None
  end.

(** ** Configuration (lines 9-26) *)

Definition KEY_WARNING : string :=
  "OpenAI API key not found. Please set it in Streamlit secrets (secrets.toml) "
  +:+ "or as an environment variable (OPENAI_API_KEY). Chat functionality is disabled.".

Inductive startup :=
  | Proceed (api_key : string)      (* openai.api_key is set, the script goes on *)
  | Halt (shown : list event).      (* st.stop() *)

(** [st.secrets] is a mapping of mappings; a missing key raises [KeyError],
    which the handler at line 11 catches.  [os.getenv] gives [None] for a
    variable that is not set. *)
Definition load_api_key
    (secrets : gmap string (gmap string string)) (environ : gmap string string) : startup :=
  match secrets !! "openai" ≫= (λ section, section !! "api_key") with
  | Some api_key => Proceed api_key
  | None =>
      let openai_api_key_env := environ !! "OPENAI_API_KEY" in
      match truthy openai_api_key_env with
      | Some api_key => Proceed api_key
      | None => Halt [Warning KEY_WARNING]
      end
  end.

(** ** The system instruction (lines 29-41) *)

Definition SYSTEM_PRE_PROMPT : string :=
  PyStr.join PyStr.nl [
    "";
    "You are WineAI, a highly knowledgeable, friendly, and sophisticated "
      +:+ "virtual sommelier.";
    "Your goal is to help users discover the perfect wine based on "
      +:+ "their mood, preferences (grape variety, region, price), and "
      +:+ "any other context they provide.";
    "Respond in a conversational, evocative, and informative style, "
      +:+ "like a real sommelier guiding a guest.";
    "When recommending a wine, provide:";
    "1.  **Specific Wine Suggestion:** Name a specific wine (e.g., "
      +:+ PyStr.dq +:+ "Cloudy Bay Sauvignon Blanc" +:+ PyStr.dq +:+ ", " +:+ PyStr.dq
      +:+ "Ch" +:+ PyStr.chr 226 +:+ "teau Margaux" +:+ PyStr.dq +:+ ", " +:+ PyStr.dq
      +:+ "La Crema Sonoma Coast Chardonnay" +:+ PyStr.dq
      +:+ "). If possible, suggest a vintage or producer known for quality "
      +:+ "within the user's price range.";
    "2.  **Reasoning:** Explain *why* this wine fits the user's mood "
      +:+ "and preferences (e.g., " +:+ PyStr.dq
      +:+ "For a celebratory mood, this Champagne offers vibrant bubbles "
      +:+ "and notes of brioche..." +:+ PyStr.dq +:+ ").";
    "3.  **Tasting Notes:** Describe the likely aroma and flavor "
      +:+ "profile (e.g., " +:+ PyStr.dq
      +:+ "Expect aromas of blackcurrant, cedar, and a hint of tobacco, "
      +:+ "with a palate showing dark fruit, firm tannins, and a long finish."
      +:+ PyStr.dq +:+ ").";
    "4.  **Food Pairing Ideas:** Suggest 1-2 food pairings that would "
      +:+ "complement the wine.";
    "5.  **Consider Filters:** Strictly adhere to the user's specified "
      +:+ "Grape Variety, Region, and Price Range filters if they are provided "
      +:+ "and not set to 'Any'. If filters make a request impossible, "
      +:+ "politely explain why and suggest alternatives.";
    "6.  **Be Conversational:** Engage the user, ask clarifying questions "
      +:+ "if needed, but prioritize giving a recommendation based on the "
      +:+ "input.";
    "7.  **Image Suggestion (Important):** At the end of your recommendation, "
      +:+ "include a line formatted *exactly* like this: `Image Search "
      +:+ "Suggestion: [Specific Wine Name Bottle]`. For example: `Image "
      +:+ "Search Suggestion: Whispering Angel Ros" +:+ PyStr.chr 233
      +:+ " Bottle`. Do not add any other text on this line.";
    ""
  ].

Definition WELCOME : string :=
  "Welcome to WineAI! How are you feeling today, and what kind of wine "
  +:+ "experience are you looking for?".

(** ** Chat initialization (lines 70-77) *)

Definition initialize (s : session) : session :=
  match messages s with
  | Some _ => s
  | None =>
      let '(r0, st) := alloc (store s) {| role := "system"; content := SYSTEM_PRE_PROMPT |} in
      let s := {| store := st; messages := Some [r0]; selected_prompt := selected_prompt s |} in
      append_message {| role := "assistant"; content := WELCOME |} s
  end.

(** ** Display of the chat history (lines 80-84) *)

Definition history (s : session) : list message :=
  filter (λ message, role message ≠ "system") (log s).

Definition display_history (s : session) : list event :=
  (λ message, ChatMessage (role message) (content message)) <$> history s.

(** ** Suggested prompts and the choice of the user input (lines 90-110) *)

Definition suggested_prompts : list string :=
  [ "I'm feeling celebratory!";
    "Need a relaxing wine after a long day.";
    "Something adventurous and bold?" ].

(** What the widgets and the outside give one run of the script. *)
Record inputs := Inputs {
  secrets : gmap string (gmap string string);
  environ : gmap string string;
  selected_grape : string;
  selected_region : string;
  min_price : Z;
  max_price : Z;
  button : nat → bool;                      (* st.button(suggested_prompts[i], ...) *)
  chat_input : option string;               (* st.chat_input(...) *)
  client : list message → completion        (* openai.chat.completions.create *)
}.

(** [if st.button(suggested_prompts[i]): st.session_state.selected_prompt = suggested_prompts[i]] *)
Definition press (inp : inputs) (i : nat) (s : session) : session :=
  if button inp i
  then {| store := store s; messages := messages s;
          selected_prompt := suggested_prompts !! i |}
  else s.

Definition buttons (inp : inputs) (s : session) : session :=
  press inp 2 (press inp 1 (press inp 0 s)).

(** Lines 107-110: the chat input, overridden by a selected prompt, which is
    then deleted from the session state. *)
Definition choose_input (inp : inputs) (s : session) : option string * session :=
  let user_input := chat_input inp in
  match truthy (selected_prompt s) with
  | Some prompt =>
      (Some prompt,
       {| store := store s; messages := messages s; selected_prompt := None |})
  | None => (user_input, s)
  end.

(** ** One turn (lines 113-189) *)

Definition API_APOLOGY : string :=
  "Sorry, I encountered an error connecting to the wine knowledge base. "
  +:+ "Please try again.".

Definition GLITCH_APOLOGY : string :=
  "Apologies, a technical glitch occurred. Please try again.".

(** [str(e)] of the [AttributeError] that [None.strip()] raises *)
Definition NONE_STRIP : string := "'NoneType' object has no attribute 'strip'".

(** The f-string of line 124 *)
Definition request_content (filters user_input : string) : string :=
  filters +:+ PyStr.nl +:+ PyStr.nl +:+ "User Mood/Request: " +:+ user_input.

(** The value of [filter_context] at line 120 *)
Definition filters_of (inp : inputs) : string :=
  filter_context (selected_grape inp) (selected_region inp)
    (price_range_str (min_price inp) (max_price inp)).

(** Lines 122-124: [messages_for_api] is a new list holding the same dicts;
    the assignment goes through the last of them.  The result is the list
    and the store after the assignment. *)
Definition compose (filters user_input : string) (s : session) : list ref * list message :=
  let messages_for_api := message_refs s in
  match last messages_for_api with
  | Some r =>
      (messages_for_api, set_content r (request_content filters user_input) (store s))
  | None => (messages_for_api, store s)   (* IndexError; the list was appended to at line 115 *)
  end.

(** Lines 132-186: the body of the [try] and its two handlers.  The result
    is what is shown and the final [assistant_response]. *)
Definition respond (outcome : completion) : list event * string :=
  match outcome with
  | Reply (Some text) =>
      let assistant_response := PyStr.strip text in
      let '(image_search_term, assistant_response) := extract_suggestion assistant_response in
      ([Placeholder assistant_response]
       ++ match truthy image_search_term with
          | Some term => [Markdown ("*(Suggested image search: `" +:+ term +:+ "`)*")]
          | None => []
          end,
       assistant_response)
  | APIError e =>
      ([Error ("OpenAI API Error: " +:+ e); Placeholder API_APOLOGY], API_APOLOGY)
  | OtherError e =>
      ([Error ("An unexpected error occurred: " +:+ e); Placeholder GLITCH_APOLOGY],
       GLITCH_APOLOGY)
  | Reply None =>
      ([Error ("An unexpected error occurred: " +:+ NONE_STRIP); Placeholder GLITCH_APOLOGY],
       GLITCH_APOLOGY)
  end.

Definition handle_turn (inp : inputs) (user_input : string) (s : session)
    : session * list event :=
  let s := append_message {| role := "user"; content := user_input |} s in
  let '(messages_for_api, st) := compose (filters_of inp) user_input s in
  let s := {| store := st; messages := messages s; selected_prompt := selected_prompt s |} in
  let request := deref_all (store s) messages_for_api in
  let '(shown, assistant_response) := respond (client inp request) in
  (append_message {| role := "assistant"; content := assistant_response |} s,
   [ChatMessage "user" user_input; Thinking; Completion request] ++ shown).

(** ** One run of the script *)

(** Lines 44-189, reached when [st.stop()] was not called. *)
Definition interact (inp : inputs) (s : session) : session * list event :=
  let s := initialize s in
  let shown := display_history s in
  let s := buttons inp s in
  let '(user_input, s) := choose_input inp s in
  match truthy user_input with
  | Some text =>
      let '(s, shown') := handle_turn inp text s in (s, shown ++ shown')
  | None => (s, shown)
  end.

Definition run (inp : inputs) (s : session) : session * list event :=
  match load_api_key (secrets inp) (environ inp) with
  | Halt shown => (s, shown)
  | Proceed _ => interact inp s
  end.

(** ** Notions used in the statements *)

(** The text up to the next occurrence of [sep], or all of it. *)
Definition until (sep s : string) : string :=
  match PyStr.find sep s with Some j => PyStr.take j s | None => s end.

(** White space only *)
Fixpoint blank (s : string) : bool :=
  match s with
  | String c s' => PyStr.is_space c && blank s'
  | EmptyString => true
  end.

(** What follows the first marker of a line that has one. *)
Definition after_marker (line : string) : option string :=
  (λ i, PyStr.drop (i + String.length MARKER) line) <$> PyStr.find MARKER line.

(** The splitter as section 4.5 of the specification words it: when the
    last line contains the marker, the suggestion is the trimmed text that
    follows the marker and the display text is the preceding lines,
    rejoined and trimmed; otherwise the display text is the whole text. *)
Definition split_by_spec (raw : string) : option string * string :=
  let lines := PyStr.split PyStr.nl raw in
  match py_last lines ≫= after_marker with
  | Some rest => (Some (PyStr.strip rest), PyStr.strip (PyStr.join PyStr.nl (py_init lines)))
  | None => (None, raw)
  end.

(** The key is in the secrets store when the lookup of line 10 succeeds,
    and in the environment when [OPENAI_API_KEY] is set to a non-empty
    string. *)
Definition key_in_secrets (secrets : gmap string (gmap string string)) : Prop :=
  is_Some (secrets !! "openai" ≫= (λ section, section !! "api_key")).

Definition key_in_environ (environ : gmap string string) : Prop :=
  ∃ value, environ !! "OPENAI_API_KEY" = Some value ∧ value ≠ "".

(** The two messages every log starts with. *)
Definition SEED : list message :=
  [ {| role := "system"; content := SYSTEM_PRE_PROMPT |};
    {| role := "assistant"; content := WELCOME |} ].

(** What the [try] and its handlers can show: the placeholder, the
    suggestion and the error banner. *)
Definition reply_event (e : event) : Prop :=
  match e with
  | Placeholder _ | Markdown _ | Error _ => True
  | _ => False
  end.

(** A run whose turn was recovered: the banner and the apology are shown,
    the apology is the last message of the log, under the role
    [assistant], and no suggestion is shown. *)
Definition recovered_with (banner apology : string) (r : session * list event) : Prop :=
  Error banner ∈ r.2
  ∧ Placeholder apology ∈ r.2
  ∧ last (log r.1) = Some {| role := "assistant"; content := apology |}
  ∧ Forall (λ e, ∀ body, e ≠ Markdown body) r.2.

(** Inputs of a run with a key in the environment, the filters of the
    specification's scenario and no button pressed. *)
Definition sample_inputs (submitted : option string) (outcome : completion) : inputs :=
  {| secrets := ∅; environ := {[ "OPENAI_API_KEY" := "sk-test" ]};
     selected_grape := "Any"; selected_region := "Napa Valley (USA)";
     min_price := 20; max_price := 80;
     button := λ _, false; chat_input := submitted; client := λ _, outcome |}.

(** The value of [user_input] at line 113 of a run that got past line 26. *)
Definition user_input (inp : inputs) (s : session) : option string :=
  (choose_input inp (buttons inp (initialize s))).1.

(** One exchange: the user message of a turn and the assistant message
    that answers it. *)
Definition exchange (turn : string * string) : list message :=
  [ {| role := "user"; content := turn.1 |};
    {| role := "assistant"; content := turn.2 |} ].

(** The seed followed by exchanges. *)
Definition conversation (turns : list (string * string)) : list message :=
  SEED ++ (turns ≫= exchange).

(** The sessions that runs of the script reach from a new session. *)
Inductive reachable : session → Prop :=
  | reachable_new : reachable new_session
  | reachable_run (inp : inputs) (s : session) :
      reachable s → reachable (run inp s).1.

(** A call of the completion client *)
Definition is_completion (e : event) : bool :=
  match e with Completion _ => true | _ => false end.

(** How a message of the history is shown (lines 83-84). *)
Definition chat_event (m : message) : event := ChatMessage (role m) (content m).

(** * Properties *)

(** ** The string methods *)

Module PyStrFacts.
Import PyStr.

Lemma append_assoc (a b c : string) : (a +:+ b) +:+ c = a +:+ (b +:+ c).
Proof.
  induction a as [|x a IH]; [done|].
  change (String x ((a +:+ b) +:+ c) = String x (a +:+ b +:+ c)). by rewrite IH.
Qed.

Lemma drop_length (n : nat) (s : string) :
  String.length (drop n s) = String.length s - n.
Proof.
  revert s; induction n as [|n IH]; intros [|c s]; simpl; by auto.
Qed.

Lemma startswith_length (p s : string) :
  startswith p s = true → String.length p ≤ String.length s.
Proof.
  revert s; induction p as [|a p IH]; intros [|b s]; simpl; try lia; try done.
  case_decide; [|done]. intros Hp%IH. lia.
Qed.

(** An occurrence lies inside the string. *)
Lemma find_bound (sub s : string) (i : nat) :
  find sub s = Some i → i + String.length sub ≤ String.length s.
Proof.
  revert i; induction s as [|c s IH]; intros i; simpl.
  - destruct (startswith sub "") eqn:E; [|done].
    intros [= <-]. by apply startswith_length in E.
  - destruct (startswith sub (String c s)) eqn:E.
    + intros [= <-]. by apply startswith_length in E.
    + destruct (find sub s) as [j|] eqn:F; [|done].
      intros [= <-]. specialize (IH j eq_refl). simpl. lia.
Qed.

(** The fuel of [split] is enough: more fuel gives the same list. *)
Lemma split_fuel_enough (sep s : string) (n m : nat) :
  sep ≠ "" → String.length s < n → String.length s < m →
  split_fuel n sep s = split_fuel m sep s.
Proof.
  intros Hsep. revert s m.
  induction n as [|n IH]; intros s m Hn Hm; [lia|].
  destruct m as [|m]; [lia|]. simpl.
  destruct (find sep s) as [i|] eqn:F; [|done].
  f_equal. apply find_bound in F.
  assert (0 < String.length sep) by (destruct sep; [done | simpl; lia]).
  apply IH; rewrite drop_length; lia.
Qed.

(** The unfolding equation of [s.split(sep)]. *)
Lemma split_unfold (sep s : string) :
  sep ≠ "" →
  split sep s =
    match find sep s with
    | None => [s]
    | Some i => take i s :: split sep (drop (i + String.length sep) s)
    end.
Proof.
  intros Hsep. unfold split at 1. simpl.
  destruct (find sep s) as [i|] eqn:F; [|done].
  f_equal. unfold split. apply find_bound in F.
  assert (0 < String.length sep) by (destruct sep; [done | simpl; lia]).
  apply split_fuel_enough; [done | | lia].
  rewrite drop_length. lia.
Qed.

Lemma split_nonempty (sep s : string) : split sep s ≠ [].
Proof. unfold split. simpl. by destruct (find sep s). Qed.

(** [s.split(sep)[1]] is the text between the first occurrence of [sep] and
    the next one. *)
Lemma split_second (sep s : string) (i : nat) :
  sep ≠ "" → find sep s = Some i →
  split sep s !! 1 = Some (until sep (drop (i + String.length sep) s)).
Proof.
  intros Hsep F. rewrite split_unfold, F by done. simpl.
  rewrite split_unfold by done. unfold until.
  by destruct (find sep (drop (i + String.length sep) s)).
Qed.

Lemma rstrip_empty (s : string) : rstrip s = "" → blank s = true.
Proof.
  induction s as [|c s IH]; simpl; [done|].
  destruct (rstrip s); [|done].
  destruct (is_space c); [|done]. intros _. by apply IH.
Qed.

Lemma lstrip_blank (s : string) : blank (lstrip s) = true → blank s = true.
Proof.
  induction s as [|c s IH]; simpl; [done|].
  destruct (is_space c) eqn:E; simpl; [done|]. by rewrite E.
Qed.

Lemma strip_empty (s : string) : strip s = "" → blank s = true.
Proof. intros H. by apply lstrip_blank, rstrip_empty. Qed.

Lemma blank_strip (s : string) : blank s = true → strip s = "".
Proof.
  unfold strip. induction s as [|c s IH]; simpl; [done|].
  intros [-> H]%andb_prop. by apply IH.
Qed.

End PyStrFacts.

(** ** Filter serialization *)

(** C6.  With grape [Any], region [Napa Valley (USA)] and prices 20 and 80
    the filter context is the string of the specification; in general the
    template is filled with the grape and the region as they are, except
    that [Any] is written [Not Specified], and with the two prices in
    decimal. *)
Theorem filter_serialization :
  filter_context "Any" "Napa Valley (USA)" (price_range_str 20 80)
  = "User Preferences: Grape=[Not Specified], Region=[Napa Valley (USA)], Price Range=[$20 - $80]."
  ∧ ∀ (grape region : string) (lo hi : Z),
      filter_context grape region (price_range_str lo hi)
      = "User Preferences: Grape=["
        +:+ (if decide (grape = "Any") then "Not Specified" else grape)
        +:+ "], Region=["
        +:+ (if decide (region = "Any") then "Not Specified" else region)
        +:+ "], Price Range=[$" +:+ PyStr.of_int lo +:+ " - $" +:+ PyStr.of_int hi +:+ "].".
Proof.
  split; [by vm_compute|].
  intros grape region lo hi. unfold filter_context, price_range_str.
  rewrite !PyStrFacts.append_assoc.
  by destruct (decide (grape = "Any")), (decide (region = "Any"));
    repeat case_decide.
Qed.

(** ** The image-search line *)

Module Splitter.
Import PyStr PyStrFacts.

Lemma MARKER_nonempty : MARKER ≠ "".
Proof. done. Qed.

Lemma nl_nonempty : nl ≠ "".
Proof. done. Qed.

(** The marker starts with a letter: it does not occur in white space. *)
Lemma find_marker_blank (s : string) : blank s = true → find MARKER s = None.
Proof.
  induction s as [|c s IH]; [done|].
  intros [Hc Hs]%andb_prop.
  change (find MARKER (String c s))
    with (if startswith MARKER (String c s) then Some 0 else S <$> find MARKER s).
  rewrite IH by done.
  replace (startswith MARKER (String c s)) with false; [done|].
  unfold MARKER. simpl. case_decide as E; [|done]. by subst c.
Qed.

Lemma contains_find (sub s : string) :
  contains sub s = true ↔ is_Some (find sub s).
Proof.
  unfold contains. by destruct (find sub s); split.
Qed.

(** The subscript [[1]] of line 152 is always in range: the handler of
    [IndexError] is never entered. *)
Lemma marker_subscript_in_range (line : string) :
  contains MARKER line = true → is_Some (split MARKER line !! 1).
Proof.
  intros [i F]%contains_find.
  rewrite (split_second _ _ i) by done. by eexists.
Qed.

Lemma extract_with_marker (raw line rest : string) :
  py_last (split nl raw) = Some line → after_marker line = Some rest →
  extract_suggestion raw
  = (Some (strip (until MARKER rest)), strip (join nl (py_init (split nl raw)))).
Proof.
  unfold after_marker, extract_suggestion. intros -> H.
  destruct (find MARKER line) as [i|] eqn:F; [|done].
  injection H as <-. unfold contains. rewrite F.
  by rewrite (split_second _ _ i).
Qed.

Lemma extract_without_marker (raw line : string) :
  py_last (split nl raw) = Some line → contains MARKER line = false →
  extract_suggestion raw = (None, raw).
Proof. unfold extract_suggestion. by intros -> ->. Qed.

(** C2, as amended.  When nothing but white space follows the marker on
    the last line, the extraction raises no [IndexError]; the suggestion is
    the empty string, the display text is the preceding lines rejoined and
    trimmed (the marker line is removed), and no suggestion is shown. *)
Theorem malformed_marker (raw line rest : string) :
  py_last (split nl raw) = Some line →
  after_marker line = Some rest →
  strip rest = "" →
  let display := strip (join nl (py_init (split nl raw))) in
  is_Some (split MARKER line !! 1)
  ∧ extract_suggestion raw = (Some "", display)
  ∧ ∀ text, strip text = raw → respond (Reply (Some text)) = ([Placeholder display], display).
Proof.
  intros Hlast Hrest Hblank display.
  assert (extract_suggestion raw = (Some "", display)) as Hex.
  { rewrite (extract_with_marker raw line rest) by done.
    unfold until. apply strip_empty in Hblank as Hb.
    by rewrite (find_marker_blank rest Hb), Hblank. }
  split; [|split; [done|]].
  - apply marker_subscript_in_range, contains_find.
    unfold after_marker in Hrest. destruct (find MARKER line); [by eexists | done].
  - intros text <-. unfold respond. by rewrite Hex.
Qed.

Lemma malformed_marker_witness :
  let raw := "Line1" +:+ nl +:+ "Image Search Suggestion:  " in
  extract_suggestion raw = (Some "", "Line1").
Proof.
  exact (proj1 (proj2 (malformed_marker
    ("Line1" +:+ nl +:+ "Image Search Suggestion:  ") "Image Search Suggestion:  " "  "
    eq_refl eq_refl eq_refl))).
Defined.

(** C2, as the specification states it, fails: on the text of its own test
    the display text is [Line1], not the whole text. *)
Lemma malformed_marker_counterexample :
  let raw := "Line1" +:+ nl +:+ "Image Search Suggestion:" in
  py_last (split nl raw) ≫= after_marker = Some ""
  ∧ extract_suggestion raw = (Some "", "Line1")
  ∧ (extract_suggestion raw).2 ≠ raw.
Proof. by vm_compute. Qed.

(** C3, as amended.  When the last line contains the marker, the
    suggestion is the trimmed text between the first marker and the next
    one on that line (the end of the line when there is no other), and the
    display text is the preceding lines rejoined and trimmed; when the
    marker occurs once this is the splitter of the specification.  When the
    last line does not contain the marker, the text is kept whole and there
    is no suggestion. *)
Theorem splitter_correct (raw line : string) :
  py_last (split nl raw) = Some line →
  (∀ rest, after_marker line = Some rest →
     extract_suggestion raw
     = (Some (strip (until MARKER rest)), strip (join nl (py_init (split nl raw))))
     ∧ (contains MARKER rest = false → extract_suggestion raw = split_by_spec raw))
  ∧ (contains MARKER line = false →
     extract_suggestion raw = (None, raw) ∧ split_by_spec raw = (None, raw)).
Proof.
  intros Hlast. split.
  - intros rest Hrest.
    pose proof (extract_with_marker raw line rest Hlast Hrest) as Hex.
    split; [done|]. intros Hone. rewrite Hex.
    unfold split_by_spec. rewrite Hlast. simpl. rewrite Hrest.
    unfold until, contains in *. by destruct (find MARKER rest).
  - intros Hno. split; [by eapply extract_without_marker|].
    unfold split_by_spec. rewrite Hlast. simpl.
    unfold after_marker, contains in *. by destruct (find MARKER line).
Qed.

(** The two tests of the specification, through [splitter_correct]. *)
Lemma splitter_correct_witness :
  extract_suggestion ("Line1" +:+ nl +:+ "Line2" +:+ nl +:+ "Image Search Suggestion: Foo Bar")
  = (Some "Foo Bar", "Line1" +:+ nl +:+ "Line2")
  ∧ extract_suggestion "Just a reply with no marker" = (None, "Just a reply with no marker").
Proof.
  split.
  - exact (proj1 (proj1 (splitter_correct
      ("Line1" +:+ nl +:+ "Line2" +:+ nl +:+ "Image Search Suggestion: Foo Bar")
      "Image Search Suggestion: Foo Bar" eq_refl) " Foo Bar" eq_refl)).
  - exact (proj1 (proj2 (splitter_correct "Just a reply with no marker"
      "Just a reply with no marker" eq_refl) eq_refl)).
Defined.

(** C3, as the specification states it, fails when the last line holds the
    marker twice: the suggestion stops at the second marker. *)
Lemma splitter_counterexample :
  let raw := "Try it." +:+ nl +:+ "Image Search Suggestion: A Image Search Suggestion: B" in
  py_last (split nl raw) ≫= after_marker = Some " A Image Search Suggestion: B"
  ∧ extract_suggestion raw = (Some "A", "Try it.")
  ∧ split_by_spec raw = (Some "A Image Search Suggestion: B", "Try it.")
  ∧ extract_suggestion raw ≠ split_by_spec raw.
Proof. by vm_compute. Qed.

(** X1.  When the last line contains the marker, the extraction always takes
    the branch of line 152-153: the piece [[1]] exists, the suggestion is
    set (to the empty string at worst) and the marker line is removed.  The
    handler of lines 154-156, which would keep the response as it is, is
    never entered. *)
Theorem index_error_handler_unreachable (raw line : string) :
  py_last (split nl raw) = Some line →
  contains MARKER line = true →
  ∃ piece,
    split MARKER line !! 1 = Some piece
    ∧ extract_suggestion raw
      = (Some (strip piece), strip (join nl (py_init (split nl raw)))).
Proof.
  intros Hlast Hin.
  destruct (marker_subscript_in_range line Hin) as [piece Hpiece].
  exists piece. split; [done|].
  unfold extract_suggestion. by rewrite Hlast, Hin, Hpiece.
Qed.

Lemma index_error_handler_unreachable_witness :
  ∃ piece,
    split MARKER "Image Search Suggestion:" !! 1 = Some piece
    ∧ extract_suggestion ("Line1" +:+ nl +:+ "Image Search Suggestion:")
      = (Some (strip piece),
         strip (join nl (py_init (split nl ("Line1" +:+ nl +:+ "Image Search Suggestion:"))))).
Proof.
  exact (index_error_handler_unreachable
           ("Line1" +:+ nl +:+ "Image Search Suggestion:") "Image Search Suggestion:"
           eq_refl eq_refl).
Defined.

End Splitter.

(** ** The store and the log *)

Module Store.

Lemma deref_all_snoc (st : list message) (refs : list ref) (m : message) :
  deref_all (st ++ [m]) (refs ++ [length st]) = deref_all (st ++ [m]) refs ++ [m].
Proof.
  unfold deref_all. rewrite omap_app. simpl.
  by rewrite list_lookup_middle.
Qed.

(** A new dict is seen by no reference that was there before. *)
Lemma deref_all_alloc (st : list message) (refs : list ref) (m : message) :
  Forall (λ r, r < length st) refs →
  deref_all (st ++ [m]) refs = deref_all st refs.
Proof.
  unfold deref_all. induction 1 as [|r refs Hr _ IH]; [done|].
  csimpl. by rewrite IH, lookup_app_l.
Qed.

(** An assignment through [r] is seen through [r] only. *)
Lemma deref_all_set_content (st : list message) (refs : list ref) (r : ref) (text : string) :
  Forall (λ r', r' ≠ r) refs →
  deref_all (set_content r text st) refs = deref_all st refs.
Proof.
  unfold deref_all. induction 1 as [|r' refs Hr _ IH]; [done|].
  csimpl. rewrite IH. unfold set_content. by rewrite list_lookup_alter_ne.
Qed.

Lemma store_append (m : message) (s : session) :
  store (append_message m s) = store s ++ [m].
Proof. done. Qed.

Lemma refs_append (m : message) (s : session) :
  message_refs (append_message m s) = message_refs s ++ [length (store s)].
Proof. done. Qed.

Lemma log_append (m : message) (s : session) :
  wf s → log (append_message m s) = log s ++ [m].
Proof.
  intros Hwf. unfold log. rewrite store_append, refs_append.
  by rewrite deref_all_snoc, deref_all_alloc.
Qed.

Lemma wf_append (m : message) (s : session) : wf s → wf (append_message m s).
Proof.
  unfold wf. rewrite store_append, refs_append. intros Hwf.
  rewrite Forall_app, length_app. simpl. split.
  - eapply Forall_impl; [done|]. simpl. lia.
  - constructor; [lia | done].
Qed.

Lemma initialize_noop (s : session) : is_Some (messages s) → initialize s = s.
Proof. intros [refs H]. unfold initialize. by rewrite H. Qed.

Lemma initialize_messages (s : session) : is_Some (messages (initialize s)).
Proof. unfold initialize. by destruct (messages s) eqn:E; [rewrite E|]. Qed.

Lemma initialize_new (s : session) : messages s = None → log (initialize s) = SEED.
Proof.
  intros H. unfold initialize. rewrite H. unfold log, append_message, deref_all. simpl.
  rewrite lookup_app_l by (rewrite length_app; simpl; lia).
  by rewrite !list_lookup_middle.
Qed.

Lemma wf_initialize (s : session) : wf s → wf (initialize s).
Proof.
  intros Hwf. unfold initialize. destruct (messages s) eqn:E; [done|].
  apply wf_append. unfold wf. simpl. constructor; [|done].
  rewrite length_app. simpl. lia.
Qed.

End Store.

(** ** Chat initialization *)

(** C7.  In a session that has no log yet, any number of calls of the
    initialization, one at least, leaves the log with the system
    instruction followed by the welcome message and nothing else; every
    call after the first changes nothing. *)
Theorem idempotent_initialization (s : session) (n : nat) :
  messages s = None →
  log (Nat.iter (S n) initialize s) = SEED
  ∧ length (filter (λ m, role m = "system") (log (Nat.iter (S n) initialize s))) = 1
  ∧ Nat.iter (S n) initialize s = initialize s
  ∧ initialize (initialize s) = initialize s.
Proof.
  intros Hnew.
  assert (∀ k, Nat.iter (S k) initialize s = initialize s) as Hiter.
  { induction k as [|k IH]; [done|].
    change (initialize (Nat.iter (S k) initialize s) = initialize s).
    rewrite IH. apply Store.initialize_noop, Store.initialize_messages. }
  rewrite Hiter, (Store.initialize_new s Hnew).
  split; [done|]. split; [done|]. split; [done|]. apply (Hiter 1).
Qed.

Lemma idempotent_initialization_witness :
  log (initialize (initialize new_session)) = SEED.
Proof. exact (proj1 (idempotent_initialization new_session 1 eq_refl)). Defined.

(** ** Configuration *)

Lemma truthy_Some (o : option string) (text : string) :
  truthy o = Some text ↔ o = Some text ∧ text ≠ "".
Proof.
  unfold truthy. destruct o as [x|]; [|by split; [|intros [? _]]].
  destruct (decide (x = "")) as [->|Hx].
  - split; [done | by intros [[= <-] ?]].
  - split; [by intros [= <-] | by intros [[= <-] _]].
Qed.

Lemma truthy_None (o : option string) :
  truthy o = None ↔ o = None ∨ o = Some "".
Proof.
  unfold truthy. destruct o as [x|]; [|by split; [left|]].
  destruct (decide (x = "")) as [->|Hx].
  - split; [by right | done].
  - split; [done | by intros [?|[= ->]]].
Qed.

Lemma key_in_environ_truthy (environ : gmap string string) :
  key_in_environ environ ↔ is_Some (truthy (environ !! "OPENAI_API_KEY")).
Proof.
  unfold key_in_environ. split.
  - intros (value & H1 & H2). exists value. by apply truthy_Some.
  - intros [value H%truthy_Some]. by exists value.
Qed.

(** The script stops exactly when no key is found, and then with the
    warning and nothing else. *)
Lemma load_api_key_halt (secrets : gmap string (gmap string string))
    (environ : gmap string string) (shown : list event) :
  load_api_key secrets environ = Halt shown ↔
  ¬ key_in_secrets secrets ∧ ¬ key_in_environ environ ∧ shown = [Warning KEY_WARNING].
Proof.
  rewrite key_in_environ_truthy. unfold load_api_key, key_in_secrets.
  destruct (secrets !! "openai" ≫= _) as [key|].
  { split; [done|]. intros [H _]. destruct H. by eexists. }
  destruct (truthy (environ !! "OPENAI_API_KEY")) as [key|].
  { split; [done|]. intros (_ & H & _). destruct H. by eexists. }
  split.
  - intros [= <-]. split_and!; [by intros [? ?] | by intros [? ?] | done].
  - by intros (_ & _ & ->).
Qed.

(** C9.  When the key is neither in the secrets store nor in the
    environment, the script shows the warning and stops: the run shows
    nothing else, calls nothing and leaves the session as it was, whatever
    the user submitted.  When the key is in one of the two, the script goes
    on to the chat.  (In the secrets store: the entry exists; in the
    environment: the variable is set and not empty.) *)
Theorem startup_credential_check (inp : inputs) (s : session) :
  (¬ key_in_secrets (secrets inp) ∧ ¬ key_in_environ (environ inp) →
     load_api_key (secrets inp) (environ inp) = Halt [Warning KEY_WARNING]
     ∧ run inp s = (s, [Warning KEY_WARNING]))
  ∧ (key_in_secrets (secrets inp) ∨ key_in_environ (environ inp) →
     (∃ api_key, load_api_key (secrets inp) (environ inp) = Proceed api_key)
     ∧ run inp s = interact inp s).
Proof.
  unfold run. split.
  - intros [H1 H2].
    assert (load_api_key (secrets inp) (environ inp) = Halt [Warning KEY_WARNING]) as ->;
      [|done].
    by apply load_api_key_halt.
  - intros H. destruct (load_api_key _ _) as [key|shown] eqn:E; [by eauto|].
    apply load_api_key_halt in E as (H1 & H2 & _). by destruct H.
Qed.

Lemma startup_credential_check_witness :
  run {| secrets := ∅; environ := ∅; selected_grape := "Any"; selected_region := "Any";
         min_price := 20; max_price := 80; button := λ _, false;
         chat_input := Some "I am happy"; client := λ _, Reply (Some "Cheers") |}
      new_session
  = (new_session, [Warning KEY_WARNING])
  ∧ ∃ api_key,
      load_api_key ∅ {[ "OPENAI_API_KEY" := "sk-test" ]} = Proceed api_key.
Proof.
  split.
  - refine (proj2 (proj1 (startup_credential_check _ new_session) _)).
    split; [by intros [? ?] | by intros (? & ? & ?)].
  - refine (proj1 (proj2 (startup_credential_check
      {| secrets := ∅; environ := {[ "OPENAI_API_KEY" := "sk-test" ]};
         selected_grape := "Any"; selected_region := "Any";
         min_price := 20; max_price := 80; button := λ _, false;
         chat_input := None; client := λ _, Reply None |} new_session) _)).
    right. by exists "sk-test".
Defined.

(** X2.  The two sources treat an empty key differently: an empty entry of the
    secrets store is taken as the key and the script goes on, whatever the
    environment holds; without an entry in the secrets store, an empty
    variable is no key and the script stops. *)
Theorem empty_key_asymmetry
    (secrets : gmap string (gmap string string)) (environ : gmap string string) :
  (secrets !! "openai" ≫= (λ section, section !! "api_key") = Some "" →
     load_api_key secrets environ = Proceed "")
  ∧ (¬ key_in_secrets secrets → environ !! "OPENAI_API_KEY" = Some "" →
     load_api_key secrets environ = Halt [Warning KEY_WARNING]).
Proof.
  split.
  - intros H. unfold load_api_key. by rewrite H.
  - intros Hs He. apply load_api_key_halt. split_and!; [done | | done].
    intros (value & Hv & Hne). congruence.
Qed.

Lemma empty_key_asymmetry_witness :
  load_api_key {[ "openai" := {[ "api_key" := "" ]} ]} {[ "OPENAI_API_KEY" := "sk-test" ]}
  = Proceed ""
  ∧ load_api_key ∅ {[ "OPENAI_API_KEY" := "" ]} = Halt [Warning KEY_WARNING].
Proof.
  split.
  - exact (proj1 (empty_key_asymmetry {[ "openai" := {[ "api_key" := "" ]} ]}
                    {[ "OPENAI_API_KEY" := "sk-test" ]}) eq_refl).
  - refine (proj2 (empty_key_asymmetry ∅ {[ "OPENAI_API_KEY" := "" ]}) _ eq_refl).
    by intros [? ?].
Defined.

(** ** One turn *)

Module Turn.

Lemma respond_events (outcome : completion) : Forall reply_event (respond outcome).1.
Proof.
  unfold respond. destruct outcome as [[text|]|e|e]; simpl;
    [|by repeat constructor..].
  destruct (extract_suggestion _) as [term reply]. simpl.
  destruct (truthy term); by repeat constructor.
Qed.

(** The assignment of line 124 goes through a dict of the stored log: after
    it, the session is the one in which the user message was appended with
    the filter context in front of the text. *)
Lemma compose_shares_dicts (filters text : string) (s : session) :
  compose filters text (append_message {| role := "user"; content := text |} s)
  = (message_refs s ++ [length (store s)],
     store (append_message {| role := "user"; content := request_content filters text |} s)).
Proof.
  unfold compose. rewrite Store.refs_append, last_snoc, !Store.store_append.
  f_equal. unfold set_content.
  rewrite <- (Nat.add_0_r (length (store s))) at 1. by rewrite alter_app_r.
Qed.

Lemma session_after_compose (m m' : message) (s : session) :
  {| store := store (append_message m' s);
     messages := messages (append_message m s);
     selected_prompt := selected_prompt (append_message m s) |}
  = append_message m' s.
Proof. done. Qed.

(** The turn, in closed form. *)
Lemma handle_turn_eq (inp : inputs) (text : string) (s : session) :
  let sent := append_message
    {| role := "user"; content := request_content (filters_of inp) text |} s in
  let result := respond (client inp (log sent)) in
  handle_turn inp text s
  = (append_message {| role := "assistant"; content := result.2 |} sent,
     [ChatMessage "user" text; Thinking; Completion (log sent)] ++ result.1).
Proof.
  intros sent result. unfold handle_turn. rewrite compose_shares_dicts.
  rewrite session_after_compose. fold sent.
  change (message_refs s ++ [length (store s)]) with (message_refs sent).
  fold (log sent). fold result. by destruct result.
Qed.

Lemma last_log_append (m : message) (s : session) :
  last (log (append_message m s)) = Some m.
Proof.
  unfold log. by rewrite Store.store_append, Store.refs_append, Store.deref_all_snoc, last_snoc.
Qed.

(** The buttons and the choice of the input leave the log alone. *)
Lemma choose_input_log (inp : inputs) (s : session) :
  store (choose_input inp (buttons inp s)).2 = store s
  ∧ messages (choose_input inp (buttons inp s)).2 = messages s.
Proof.
  unfold choose_input, buttons, press.
  by repeat (case_match; simpl in * ).
Qed.

(** A run that has no truthy input stops after the history. *)
Lemma interact_idle (inp : inputs) (s : session) :
  truthy (user_input inp s) = None →
  log (interact inp s).1 = log (initialize s)
  ∧ (interact inp s).2 = display_history (initialize s).
Proof.
  unfold user_input, interact. intros H.
  pose proof (choose_input_log inp (initialize s)) as [Hst Hm].
  destruct (choose_input inp (buttons inp (initialize s))) as [input s1].
  simpl in *. rewrite H. simpl. split; [|done].
  unfold log, message_refs. by rewrite Hst, Hm.
Qed.

(** A run that has a truthy input handles one turn on the initialized log. *)
Lemma interact_turn (inp : inputs) (s : session) (text : string) :
  truthy (user_input inp s) = Some text →
  ∃ s1, store s1 = store (initialize s) ∧ messages s1 = messages (initialize s)
    ∧ (interact inp s).1 = (handle_turn inp text s1).1
    ∧ (interact inp s).2 = display_history (initialize s) ++ (handle_turn inp text s1).2.
Proof.
  unfold user_input, interact. intros H.
  pose proof (choose_input_log inp (initialize s)) as [Hst Hm].
  destruct (choose_input inp (buttons inp (initialize s))) as [input s1].
  simpl in *. rewrite H. exists s1.
  by destruct (handle_turn inp text s1).
Qed.

End Turn.

(** ** Display of the history *)

Lemma interact_no_system (inp : inputs) (s : session) :
  Forall (λ e, ∀ body, e ≠ ChatMessage "system" body) (interact inp s).2.
Proof.
  assert (Forall (λ e, ∀ body, e ≠ ChatMessage "system" body)
            (display_history (initialize s))) as Hhist.
  { unfold display_history, history. apply Forall_fmap, Forall_forall.
    intros m [Hrole _]%list_elem_of_filter body [= E _]. done. }
  unfold interact.
  destruct (choose_input inp (buttons inp (initialize s))) as [input s1].
  destruct (truthy input) as [text|]; [|done].
  unfold handle_turn.
  destruct (compose _ text _) as [refs st].
  pose proof (Turn.respond_events (client inp (deref_all st refs))) as Hresp.
  simpl in *.
  destruct (respond _) as [shown reply]. simpl in *.
  rewrite Forall_app. split; [done|].
  repeat (constructor; [done|]).
  eapply Forall_impl; [done|]. by intros [] ? ?.
Qed.

(** C8.  For every log, no entry of the displayed history has the role
    [system], the seeded system instruction is not in it, and no run of the
    script shows a chat message under the name [system]. *)
Theorem history_excludes_system (inp : inputs) (s : session) :
  Forall (λ m, role m ≠ "system") (history s)
  ∧ ({| role := "system"; content := SYSTEM_PRE_PROMPT |} ∉ history s)
  ∧ Forall (λ e, ∀ body, e ≠ ChatMessage "system" body) (display_history s)
  ∧ Forall (λ e, ∀ body, e ≠ ChatMessage "system" body) (run inp s).2.
Proof.
  assert (Forall (λ m, role m ≠ "system") (history s)) as Hhist.
  { apply Forall_forall. by intros m [Hrole _]%list_elem_of_filter. }
  split; [done|]. split; [|split].
  - intros Hin. by apply (proj1 (Forall_forall _ _) Hhist) in Hin.
  - unfold display_history. apply Forall_fmap.
    eapply Forall_impl; [done|]. intros m Hm body [= E _]. done.
  - unfold run. destruct (load_api_key _ _) eqn:E.
    + apply interact_no_system.
    + apply load_api_key_halt in E as (_ & _ & ->). by repeat constructor.
Qed.

(** ** The conversation log across a run *)

Lemma run_with_key (inp : inputs) (s : session) :
  key_in_secrets (secrets inp) ∨ key_in_environ (environ inp) →
  run inp s = interact inp s.
Proof.
  intros H. unfold run.
  destruct (load_api_key _ _) as [key|shown] eqn:E; [done|].
  apply load_api_key_halt in E as (H1 & H2 & _). by destruct H.
Qed.

(** The only completion call of a run is the one of its turn, on the log in
    which the user message carries the filter context. *)
Lemma run_completion (inp : inputs) (s : session) (request : list message) :
  Completion request ∈ (run inp s).2 →
  ∃ text s1,
    let sent := append_message
      {| role := "user"; content := request_content (filters_of inp) text |} s1 in
    let result := respond (client inp request) in
    request = log sent
    ∧ (run inp s).1 = append_message {| role := "assistant"; content := result.2 |} sent
    ∧ (run inp s).2
      = display_history (initialize s)
        ++ [ChatMessage "user" text; Thinking; Completion request] ++ result.1.
Proof.
  unfold run. destruct (load_api_key _ _) as [key|shown] eqn:E.
  2:{ apply load_api_key_halt in E as (_ & _ & ->). simpl.
      by intros [=]%list_elem_of_singleton. }
  destruct (truthy (user_input inp s)) as [text|] eqn:Hin.
  2:{ destruct (Turn.interact_idle inp s Hin) as [_ ->].
      unfold display_history. by intros (m & [=] & _)%list_elem_of_fmap. }
  destruct (Turn.interact_turn inp s text Hin) as (s1 & _ & _ & -> & ->).
  rewrite Turn.handle_turn_eq. simpl.
  set (sent := append_message _ s1).
  intros Hreq. exists text, s1.
  assert (request = log sent) as ->; [|done].
  apply elem_of_app in Hreq as [Hreq|Hreq].
  { unfold display_history in Hreq. by apply list_elem_of_fmap in Hreq as (m & [=] & _). }
  rewrite !elem_of_cons in Hreq. destruct Hreq as [[=]|[[=]|[[=]|Hreq]]]; [done|].
  pose proof (Turn.respond_events (client inp (log sent))) as Hev.
  by apply (proj1 (Forall_forall _ _) Hev) in Hreq.
Qed.

(** C1.  The claim fails on the code: the list sent to the client is a
    shallow copy, so the rewriting of line 124 reaches the stored log.  In
    the session seeded by the initialization, after the user submitted
    [I am happy], the last message of the stored log holds that text before
    line 124 and the filter context followed by it after; the log kept by
    the run and the history shown by the next run carry the filter
    context. *)
Theorem compose_rewrites_stored_message :
  let inp := sample_inputs (Some "I am happy") (Reply (Some "Cheers")) in
  let rewritten :=
    "User Preferences: Grape=[Not Specified], Region=[Napa Valley (USA)], "
    +:+ "Price Range=[$20 - $80]." +:+ PyStr.nl +:+ PyStr.nl
    +:+ "User Mood/Request: I am happy" in
  let before :=
    append_message {| role := "user"; content := "I am happy" |} (initialize new_session) in
  let after := (compose (filters_of inp) "I am happy" before).2 in
  last (log before) = Some {| role := "user"; content := "I am happy" |}
  ∧ last (deref_all after (message_refs before))
    = Some {| role := "user"; content := rewritten |}
  ∧ log (run inp new_session).1
    = SEED ++ [ {| role := "user"; content := rewritten |};
                {| role := "assistant"; content := "Cheers" |} ]
  ∧ display_history (run inp new_session).1
    = [ ChatMessage "assistant" WELCOME; ChatMessage "user" rewritten;
        ChatMessage "assistant" "Cheers" ].
Proof. by vm_compute. Qed.

(** X3.  For every log whose references point into the store: after line 124
    the stored log is the log before the turn followed by the user message
    with the filter context in front of the text. *)
Theorem compose_not_pure (filters text : string) (s : session) :
  wf s →
  let before := append_message {| role := "user"; content := text |} s in
  let after := (compose filters text before).2 in
  deref_all after (message_refs before)
  = log s ++ [ {| role := "user"; content := request_content filters text |} ].
Proof.
  intros Hwf before after. unfold after, before.
  rewrite Turn.compose_shares_dicts. simpl.
  rewrite Store.refs_append.
  by rewrite <- (Store.log_append _ s Hwf).
Qed.

Lemma compose_not_pure_witness :
  deref_all
    (compose "F" "I am happy"
       (append_message {| role := "user"; content := "I am happy" |}
          (initialize new_session))).2
    (message_refs
       (append_message {| role := "user"; content := "I am happy" |}
          (initialize new_session)))
  = log (initialize new_session)
    ++ [ {| role := "user"; content := request_content "F" "I am happy" |} ].
Proof.
  refine (compose_not_pure "F" "I am happy" (initialize new_session) _).
  repeat constructor.
Defined.

(** C4.  When the completion call of a run fails, with an [APIError] or
    with any other exception, the run shows an error banner and the
    apology of that handler, stores the apology as the assistant message of
    the turn, and shows no suggestion.  A response without content ends in
    the second handler as well. *)
Theorem error_substitution (inp : inputs) (s : session) (request : list message) (e : string) :
  Completion request ∈ (run inp s).2 →
  (client inp request = APIError e →
     recovered_with ("OpenAI API Error: " +:+ e) API_APOLOGY (run inp s))
  ∧ (client inp request = OtherError e →
     recovered_with ("An unexpected error occurred: " +:+ e) GLITCH_APOLOGY (run inp s))
  ∧ (client inp request = Reply None →
     recovered_with ("An unexpected error occurred: " +:+ NONE_STRIP) GLITCH_APOLOGY
       (run inp s)).
Proof.
  intros (text & s1 & -> & Hs & Hshown)%run_completion.
  unfold recovered_with. rewrite Hs, Hshown, Turn.last_log_append.
  assert (Forall (λ ev, ∀ body, ev ≠ Markdown body) (display_history (initialize s)))
    as Hhist.
  { unfold display_history. apply Forall_fmap, Forall_forall. by intros m _ body. }
  split_and!; intros ->; simpl; rewrite !elem_of_app, !elem_of_cons, !Forall_app;
    split_and!; try done; auto 10; by repeat constructor.
Qed.

Lemma error_substitution_witness :
  recovered_with "OpenAI API Error: Connection error." API_APOLOGY
    (run (sample_inputs (Some "I am happy") (APIError "Connection error.")) new_session).
Proof.
  refine (proj1 (error_substitution
    (sample_inputs (Some "I am happy") (APIError "Connection error.")) new_session
    (SEED ++ [ {| role := "user";
                  content := request_content
                    (filter_context "Any" "Napa Valley (USA)" (price_range_str 20 80))
                    "I am happy" |} ])
    "Connection error." _) eq_refl).
  apply (bool_decide_unpack _). by vm_compute.
Defined.

Lemma initialize_log (s : session) :
  log (initialize s) = log s ∨ (log s = [] ∧ log (initialize s) = SEED).
Proof.
  destruct (messages s) as [refs|] eqn:E.
  - left. by rewrite Store.initialize_noop by (by eexists).
  - right. split; [|by apply Store.initialize_new].
    unfold log, message_refs. by rewrite E.
Qed.

(** Every session a run can reach from a new one is well formed. *)
Lemma wf_new_session : wf new_session.
Proof. by constructor. Qed.

Lemma wf_run (inp : inputs) (s : session) : wf s → wf (run inp s).1.
Proof.
  intros Hwf. unfold run. destruct (load_api_key _ _); [|done].
  apply Store.wf_initialize in Hwf.
  pose proof (Turn.choose_input_log inp (initialize s)) as [Hst Hm].
  unfold interact.
  destruct (choose_input inp (buttons inp (initialize s))) as [input s1]. simpl in *.
  assert (wf s1) as Hwf1 by (unfold wf, message_refs in *; by rewrite Hst, Hm).
  destruct (truthy input) as [text|]; [|done].
  rewrite (surjective_pairing (handle_turn inp text s1)), Turn.handle_turn_eq. simpl.
  auto using Store.wf_append.
Qed.

(** C5, as amended.  When the submitted input is absent or the empty
    string, the run appends nothing to the log beyond the seeding of a new
    session, so no user message, and makes no completion call.  (A string
    of white space is not empty.) *)
Theorem empty_input_guard (inp : inputs) (s : session) :
  truthy (user_input inp s) = None →
  (log (run inp s).1 = log s ∨ log (run inp s).1 = log (initialize s))
  ∧ filter (λ m, role m = "user") (log (run inp s).1)
    = filter (λ m, role m = "user") (log s)
  ∧ Forall (λ e, ∀ request, e ≠ Completion request) (run inp s).2.
Proof.
  intros Hin.
  assert (filter (λ m, role m = "user") (log (initialize s))
          = filter (λ m, role m = "user") (log s)) as Hinit.
  { destruct (initialize_log s) as [->|[-> ->]]; done. }
  unfold run. destruct (load_api_key _ _) as [key|shown] eqn:E.
  - destruct (Turn.interact_idle inp s Hin) as [-> ->].
    split_and!; [by right | done |].
    unfold display_history. apply Forall_fmap, Forall_forall. by intros m _ request.
  - apply load_api_key_halt in E as (_ & _ & ->). simpl.
    split_and!; [by left | done | by repeat constructor].
Qed.

Lemma empty_input_guard_witness :
  let r := run (sample_inputs (Some "") (Reply (Some "Cheers"))) new_session in
  (log r.1 = log new_session ∨ log r.1 = log (initialize new_session))
  ∧ filter (λ m, role m = "user") (log r.1) = filter (λ m, role m = "user") (log new_session)
  ∧ Forall (λ e, ∀ request, e ≠ Completion request) r.2.
Proof.
  exact (empty_input_guard (sample_inputs (Some "") (Reply (Some "Cheers"))) new_session
           eq_refl).
Defined.

(** C5, as the specification states it, fails on a blank input: a single
    space is truthy, so the run appends a user message and calls the
    client. *)
Lemma blank_input_counterexample :
  let inp := sample_inputs (Some " ") (Reply (Some "Cheers")) in
  let sent := {| role := "user"; content := request_content (filters_of inp) " " |} in
  PyStr.strip " " = ""
  ∧ (run inp new_session).2
    = [ ChatMessage "assistant" WELCOME; ChatMessage "user" " "; Thinking;
        Completion (SEED ++ [sent]); Placeholder "Cheers" ]
  ∧ log (run inp new_session).1
    = SEED ++ [ sent; {| role := "assistant"; content := "Cheers" |} ].
Proof. by vm_compute. Qed.

(** C10.  A run with a key and a non-empty input appends two messages to
    the log it found (seeded first in a new session): one of role [user],
    then one of role [assistant], whatever the client answers; the
    messages that were there are kept as they were.  (The content of the
    user message is the rewritten one of line 124.) *)
Theorem turn_appends_two (inp : inputs) (s : session) (text : string) :
  wf s →
  key_in_secrets (secrets inp) ∨ key_in_environ (environ inp) →
  truthy (user_input inp s) = Some text →
  ∃ reply,
    log (run inp s).1
    = log (initialize s)
      ++ [ {| role := "user"; content := request_content (filters_of inp) text |};
           {| role := "assistant"; content := reply |} ]
    ∧ length (log (run inp s).1) = length (log (initialize s)) + 2.
Proof.
  intros Hwf Hkey Hin. rewrite (run_with_key inp s Hkey).
  destruct (Turn.interact_turn inp s text Hin) as (s1 & Hst & Hm & -> & _).
  rewrite Turn.handle_turn_eq. simpl.
  set (sent := {| role := "user"; content := _ |}).
  set (reply := (respond _).2). exists reply.
  assert (wf s1) as Hwf1.
  { apply Store.wf_initialize in Hwf. unfold wf, message_refs in *. by rewrite Hst, Hm. }
  assert (log s1 = log (initialize s)) as Hlog.
  { unfold log, message_refs. by rewrite Hst, Hm. }
  rewrite !Store.log_append by auto using Store.wf_append.
  rewrite Hlog, <- app_assoc. split; [done|].
  rewrite length_app. simpl. lia.
Qed.

Lemma turn_appends_two_witness :
  ∃ reply,
    log (run (sample_inputs (Some "I am happy") (OtherError "timed out")) new_session).1
    = log (initialize new_session)
      ++ [ {| role := "user";
              content := request_content
                (filters_of (sample_inputs (Some "I am happy") (OtherError "timed out")))
                "I am happy" |};
           {| role := "assistant"; content := reply |} ]
    ∧ length (log (run (sample_inputs (Some "I am happy") (OtherError "timed out"))
                 new_session).1)
      = length (log (initialize new_session)) + 2.
Proof.
  refine (turn_appends_two (sample_inputs (Some "I am happy") (OtherError "timed out"))
            new_session "I am happy" _ _ eq_refl).
  - by constructor.
  - right. by exists "sk-test".
Defined.

(** * Further properties *)

(** ** Runs *)

Module Runs.

Lemma initialize_prompt (s : session) :
  selected_prompt (initialize s) = selected_prompt s.
Proof. unfold initialize. by destruct (messages s). Qed.

(** The selected prompt does not survive the choice of the input. *)
Lemma choose_clears (inp : inputs) (s : session) :
  selected_prompt s ≠ Some "" →
  selected_prompt (choose_input inp (buttons inp s)).2 = None.
Proof.
  intros Hs. unfold choose_input, buttons, press, truthy.
  destruct (selected_prompt s) as [p|] eqn:E;
    destruct (button inp 0), (button inp 1), (button inp 2); simpl;
    rewrite ?E; simpl; try done; by case_decide; simplify_eq.
Qed.

Lemma interact_prompt (inp : inputs) (s : session) :
  selected_prompt s ≠ Some "" → selected_prompt (interact inp s).1 = None.
Proof.
  intros Hs. rewrite <- initialize_prompt in Hs.
  pose proof (choose_clears inp (initialize s) Hs) as Hc.
  unfold interact.
  destruct (choose_input inp (buttons inp (initialize s))) as [input s1]. simpl in *.
  destruct (truthy input) as [text|]; [|done].
  by rewrite (surjective_pairing (handle_turn inp text s1)), Turn.handle_turn_eq.
Qed.

(** A run with a turn, in closed form on the log. *)
Lemma interact_turn_log (inp : inputs) (s : session) (text : string) :
  wf s → truthy (user_input inp s) = Some text →
  let request :=
    log (initialize s)
    ++ [ {| role := "user"; content := request_content (filters_of inp) text |} ] in
  let result := respond (client inp request) in
  log (interact inp s).1 = request ++ [ {| role := "assistant"; content := result.2 |} ]
  ∧ (interact inp s).2
    = display_history (initialize s)
      ++ [ChatMessage "user" text; Thinking; Completion request] ++ result.1.
Proof.
  intros Hwf Hin.
  destruct (Turn.interact_turn inp s text Hin) as (s1 & Hst & Hm & -> & ->).
  rewrite Turn.handle_turn_eq. simpl.
  assert (wf s1) as Hwf1.
  { apply Store.wf_initialize in Hwf. unfold wf, message_refs in *. by rewrite Hst, Hm. }
  assert (log s1 = log (initialize s)) as Hlog.
  { unfold log, message_refs. by rewrite Hst, Hm. }
  rewrite !Store.log_append by auto using Store.wf_append.
  by rewrite Hlog.
Qed.

Lemma interact_messages (inp : inputs) (s : session) :
  is_Some (messages (interact inp s).1).
Proof.
  pose proof (Turn.choose_input_log inp (initialize s)) as [_ Hm].
  pose proof (Store.initialize_messages s) as Hi.
  unfold interact.
  destruct (choose_input inp (buttons inp (initialize s))) as [input s1]. simpl in *.
  destruct (truthy input) as [text|]; simpl; [|by rewrite Hm].
  by rewrite (surjective_pairing (handle_turn inp text s1)), Turn.handle_turn_eq.
Qed.

Lemma filter_completion_history (s : session) :
  filter is_completion (display_history s) = [].
Proof.
  unfold display_history. induction (history s) as [|m l IH]; [done|].
  csimpl. rewrite filter_cons_False; [done | by intros ?].
Qed.

Lemma filter_completion_reply (outcome : completion) :
  filter is_completion (respond outcome).1 = [].
Proof.
  pose proof (Turn.respond_events outcome) as H.
  induction H as [|e l He _ IH]; [done|].
  rewrite filter_cons_False; [done|]. destruct e; simpl in *; try done; by intros ?.
Qed.

(** The three ways a run can go. *)
Lemma run_cases (inp : inputs) (s : session) :
  run inp s = (s, [Warning KEY_WARNING])
  ∨ (run inp s = interact inp s ∧ truthy (user_input inp s) = None)
  ∨ (run inp s = interact inp s ∧ ∃ text, truthy (user_input inp s) = Some text).
Proof.
  unfold run. destruct (load_api_key _ _) as [key|shown] eqn:E.
  - right. destruct (truthy (user_input inp s)) as [text|]; [right | left]; eauto.
  - left. by apply load_api_key_halt in E as (_ & _ & ->).
Qed.

Lemma log_initialize_prefix (s : session) : log s `prefix_of` log (initialize s).
Proof.
  destruct (initialize_log s) as [->|[-> _]]; [done | apply prefix_nil].
Qed.

Lemma conversation_snoc (turns : list (string * string)) (u a : string) :
  conversation turns
  ++ [ {| role := "user"; content := u |}; {| role := "assistant"; content := a |} ]
  = conversation (turns ++ [(u, a)]).
Proof.
  unfold conversation. rewrite bind_app, <- app_assoc. by f_equal.
Qed.

(** What every reachable session satisfies. *)
Lemma reachable_inv (s : session) :
  reachable s →
  wf s ∧ selected_prompt s = None
  ∧ (messages s = None ∨ ∃ turns, log s = conversation turns).
Proof.
  induction 1 as [|inp s _ (Hwf & Hp & Hlog)].
  { split_and!; [apply wf_new_session | done | by left]. }
  split; [by apply wf_run|].
  assert (∃ turns, log (initialize s) = conversation turns) as [turns Hturns].
  { destruct Hlog as [Hnew|[turns Hl]].
    - exists []. by apply Store.initialize_new.
    - exists turns. destruct (initialize_log s) as [->|[Hl' _]]; [done|].
      rewrite Hl' in Hl. done. }
  destruct (run_cases inp s) as [->|[[-> Hin]|[-> [text Hin]]]].
  - done.
  - split; [apply interact_prompt; by rewrite Hp|]. right. exists turns.
    by destruct (Turn.interact_idle inp s Hin) as [-> _].
  - split; [apply interact_prompt; by rewrite Hp|]. right.
    destruct (interact_turn_log inp s text Hwf Hin) as [-> _].
    rewrite Hturns. eexists (turns ++ [(_, _)]).
    by rewrite <- conversation_snoc, <- app_assoc.
Qed.

Lemma respond_shows_reply (outcome : completion) :
  Placeholder (respond outcome).2 ∈ (respond outcome).1.
Proof.
  unfold respond. destruct outcome as [[text|]|e|e]; simpl;
    [|rewrite !elem_of_cons; by auto..].
  destruct (extract_suggestion _) as [term reply]. simpl. apply list_elem_of_here.
Qed.

(** The call of a run, the log it leaves and what it shows. *)
Lemma run_call (inp : inputs) (s : session) (request : list message) :
  wf s →
  Completion request ∈ (run inp s).2 →
  ∃ text,
    truthy (user_input inp s) = Some text
    ∧ request
      = log (initialize s)
        ++ [ {| role := "user"; content := request_content (filters_of inp) text |} ]
    ∧ log (run inp s).1
      = request
        ++ [ {| role := "assistant"; content := (respond (client inp request)).2 |} ]
    ∧ filter is_completion (run inp s).2 = [Completion request]
    ∧ Placeholder (respond (client inp request)).2 ∈ (run inp s).2.
Proof.
  intros Hwf Hreq.
  destruct (run_cases inp s) as [E|[[E Hin]|[E [text Hin]]]]; rewrite E in *.
  - simpl in Hreq. by apply list_elem_of_singleton in Hreq.
  - destruct (Turn.interact_idle inp s Hin) as [_ Hshown]. rewrite Hshown in Hreq.
    unfold display_history in Hreq. by apply list_elem_of_fmap in Hreq as (m & [=] & _).
  - destruct (interact_turn_log inp s text Hwf Hin) as [Hlog Hshown].
    simpl in Hlog, Hshown. rewrite Hlog, Hshown in *. clear Hlog Hshown E.
    set (request0 := log (initialize s) ++ _) in *.
    assert (filter is_completion
              (display_history (initialize s)
               ++ [ChatMessage "user" text; Thinking; Completion request0]
               ++ (respond (client inp request0)).1)
            = [Completion request0]) as Hone.
    { rewrite !filter_app, filter_completion_history,
        filter_completion_reply. done. }
    assert (request = request0) as ->.
    { assert (Completion request ∈ [Completion request0]) as Hin'.
      { rewrite <- Hone. apply list_elem_of_filter. by split. }
      by apply list_elem_of_singleton in Hin' as [= ->]. }
    exists text. split_and!; try done.
    rewrite !elem_of_app, !elem_of_cons. do 4 right. apply respond_shows_reply.
Qed.

Lemma reachable_inv_log (s : session) :
  reachable s → log s = [] ∨ ∃ turns, log s = conversation turns.
Proof.
  intros (_ & _ & [Hnew|H])%reachable_inv; [left | by right].
  unfold log, message_refs. by rewrite Hnew.
Qed.

End Runs.

(** ** Lines and trimming *)

Module Lines.
Import PyStr PyStrFacts.

Lemma take_drop (n : nat) (s : string) : take n s +:+ drop n s = s.
Proof.
  revert s; induction n as [|n IH]; intros [|c s]; try done.
  change (String c (take n s +:+ drop n s) = String c s). by rewrite IH.
Qed.

Lemma drop_drop (n m : nat) (s : string) : drop (n + m) s = drop m (drop n s).
Proof.
  revert s; induction n as [|n IH]; intros s; [done|].
  destruct s as [|c s]; [by destruct m | apply IH].
Qed.

Lemma startswith_drop (p s : string) :
  startswith p s = true → s = p +:+ drop (String.length p) s.
Proof.
  revert s; induction p as [|a p IH]; intros [|b s]; simpl; try done.
  case_decide as E; [|done]. subst b. intros H%IH.
  change (String a s = String a (p +:+ drop (String.length p) s)). by rewrite <- H.
Qed.

Lemma find_startswith (sub s : string) (i : nat) :
  find sub s = Some i → startswith sub (drop i s) = true.
Proof.
  revert i; induction s as [|c s IH]; intros i; simpl.
  - destruct (startswith sub "") eqn:E; [|done]. by intros [= <-].
  - destruct (startswith sub (String c s)) eqn:E; [by intros [= <-]|].
    destruct (find sub s) as [j|]; [|done]. intros [= <-]. by apply IH.
Qed.

(** A string is what precedes the first separator, the separator and
    what follows it. *)
Lemma find_cut (sep s : string) (i : nat) :
  find sep s = Some i →
  s = take i s +:+ sep +:+ drop (i + String.length sep) s.
Proof.
  intros H%find_startswith%startswith_drop.
  by rewrite drop_drop, <- H, take_drop.
Qed.

Lemma split_fuel_nonempty (n : nat) (sep s : string) : split_fuel n sep s ≠ [].
Proof. destruct n; simpl; [done|]. by destruct (find sep s). Qed.

Lemma join_cons (sep x : string) (l : list string) :
  l ≠ [] → join sep (x :: l) = x +:+ sep +:+ join sep l.
Proof. by destruct l. Qed.

Lemma join_snoc (sep x : string) (l : list string) :
  l ≠ [] → join sep (l ++ [x]) = join sep l +:+ sep +:+ x.
Proof.
  induction l as [|y l IH]; [done|]. intros _.
  destruct l as [|z l]; [done|].
  change (y +:+ sep +:+ join sep ((z :: l) ++ [x])
          = (y +:+ sep +:+ join sep (z :: l)) +:+ sep +:+ x).
  by rewrite IH, !append_assoc.
Qed.

Lemma join_split_fuel (n : nat) (sep s : string) :
  sep ≠ "" → String.length s < n → join sep (split_fuel n sep s) = s.
Proof.
  intros Hsep. revert s. induction n as [|n IH]; intros s Hn; [lia|].
  simpl. destruct (find sep s) as [i|] eqn:F; [|done].
  rewrite join_cons by apply split_fuel_nonempty.
  rewrite IH; [by rewrite <- find_cut|].
  apply find_bound in F. rewrite drop_length.
  assert (0 < String.length sep) by (destruct sep; [done | simpl; lia]). lia.
Qed.

Lemma init_last (l : list string) (x : string) :
  py_last l = Some x → l = py_init l ++ [x].
Proof.
  unfold py_last, py_init. induction l as [|y l IH]; [done|].
  destruct l as [|z l]; [by intros [= ->]|].
  intros H. simpl in *. by rewrite <- IH.
Qed.

(** [s.lstrip()] ends where the text starts. *)
Lemma lstrip_head (s : string) (c : ascii) (t : string) :
  lstrip s = String c t → is_space c = false.
Proof.
  induction s as [|d s IH]; simpl; [done|].
  destruct (is_space d) eqn:E; [done|]. by intros [= <- _].
Qed.

Lemma rstrip_head (c : ascii) (t : string) :
  is_space c = false → ∃ t', rstrip (String c t) = String c t'.
Proof. intros E. simpl. rewrite E. destruct (rstrip t); by eexists. Qed.

Lemma rstrip_idem (s : string) : rstrip (rstrip s) = rstrip s.
Proof.
  induction s as [|c s IH]; [done|]. simpl.
  destruct (rstrip s) as [|d r] eqn:E.
  - destruct (is_space c) eqn:Ec; [done|]. simpl. by rewrite Ec.
  - simpl in *. by rewrite IH.
Qed.

Lemma strip_idem (s : string) : strip (strip s) = strip s.
Proof.
  unfold strip. destruct (lstrip s) as [|c t] eqn:E; [done|].
  apply lstrip_head in E as Hc.
  destruct (rstrip_head c t Hc) as [t' Ht]. rewrite Ht.
  simpl lstrip. rewrite Hc, <- Ht. apply rstrip_idem.
Qed.

End Lines.

(** ** The conversation across runs *)

(** X4.  In every session reached from a new one by runs of the script,
    the log is empty (no run got past the credential check yet) or it is
    the system instruction and the welcome message followed by exchanges:
    a user message, then the assistant message that answers it. *)
Theorem reachable_log_shape (s : session) :
  reachable s → log s = [] ∨ ∃ turns, log s = conversation turns.
Proof.
  apply Runs.reachable_inv_log.
Qed.

Lemma reachable_log_shape_witness :
  let s := (run (sample_inputs (Some "I am happy") (Reply (Some "Cheers"))) new_session).1 in
  log s = [] ∨ ∃ turns, log s = conversation turns.
Proof. exact (reachable_log_shape _ (reachable_run _ _ reachable_new)). Defined.

Lemma filter_exchanges (turns : list (string * string)) :
  filter (λ m, role m ≠ "system") (turns ≫= exchange) = turns ≫= exchange.
Proof.
  induction turns as [|[u a] turns IH]; [done|].
  change (filter (λ m, role m ≠ "system") (exchange (u, a) ++ (turns ≫= exchange))
          = exchange (u, a) ++ (turns ≫= exchange)).
  by rewrite filter_app, IH.
Qed.

(** X5.  In every reachable session the history that is displayed is the
    whole log but its first message, in the order of the log: nothing
    besides the system instruction is hidden. *)
Theorem history_is_log_tail (s : session) :
  reachable s →
  history s = drop 1 (log s) ∧ display_history s = chat_event <$> drop 1 (log s).
Proof.
  intros Hs.
  assert (history s = drop 1 (log s)) as Hh; [|split; [done | unfold display_history; by rewrite Hh]].
  unfold history.
  destruct (Runs.reachable_inv_log s Hs) as [->|[turns ->]]; [done|].
  unfold conversation. by rewrite filter_app, filter_exchanges.
Qed.

Lemma history_is_log_tail_witness :
  let s := (run (sample_inputs (Some "I am happy") (Reply (Some "Cheers"))) new_session).1 in
  history s = drop 1 (log s) ∧ display_history s = chat_event <$> drop 1 (log s).
Proof. exact (history_is_log_tail _ (reachable_run _ _ reachable_new)). Defined.

(** X6.  In every reachable session no selected prompt is pending: the run
    that a suggested-prompt button triggers consumes the prompt, so the
    next run does not submit it again. *)
Theorem selected_prompt_consumed (s : session) :
  reachable s → selected_prompt s = None.
Proof. by intros (_ & H & _)%Runs.reachable_inv. Qed.

Lemma selected_prompt_consumed_witness :
  selected_prompt
    (run {| secrets := ∅; environ := {[ "OPENAI_API_KEY" := "sk-test" ]};
            selected_grape := "Merlot"; selected_region := "Any";
            min_price := 10; max_price := 500;
            button := λ i, bool_decide (i = 1); chat_input := None;
            client := λ _, Reply (Some "Cheers") |} new_session).1
  = None.
Proof. exact (selected_prompt_consumed _ (reachable_run _ _ reachable_new)). Defined.

(** X7.  The log only grows: the log a run starts from is a prefix of the
    log it leaves, with the messages as they were, whether the run stops
    at the credential check, has no input or handles a turn. *)
Theorem log_append_only (inp : inputs) (s : session) :
  wf s → log s `prefix_of` log (run inp s).1.
Proof.
  intros Hwf.
  destruct (Runs.run_cases inp s) as [->|[[-> Hin]|[-> [text Hin]]]].
  - done.
  - destruct (Turn.interact_idle inp s Hin) as [-> _].
    apply Runs.log_initialize_prefix.
  - destruct (Runs.interact_turn_log inp s text Hwf Hin) as [-> _].
    do 2 apply prefix_app_r. apply Runs.log_initialize_prefix.
Qed.

Lemma log_append_only_witness :
  log (initialize new_session)
  `prefix_of`
  log (run (sample_inputs (Some "I am happy") (APIError "Connection error."))
         (initialize new_session)).1.
Proof.
  refine (log_append_only _ (initialize new_session) _). repeat constructor.
Defined.

(** X8.  A run calls the completion client once at most.  When it does,
    the request is the log the run started from (seeded first in a new
    session) followed by the user message with the filter context, the log
    the run leaves is the request followed by the assistant message, and
    the text of that message is the one the placeholder shows. *)
Theorem sent_plus_reply (inp : inputs) (s : session) (request : list message) :
  wf s →
  Completion request ∈ (run inp s).2 →
  ∃ text,
    truthy (user_input inp s) = Some text
    ∧ request
      = log (initialize s)
        ++ [ {| role := "user"; content := request_content (filters_of inp) text |} ]
    ∧ log (run inp s).1
      = request
        ++ [ {| role := "assistant"; content := (respond (client inp request)).2 |} ]
    ∧ filter is_completion (run inp s).2 = [Completion request]
    ∧ Placeholder (respond (client inp request)).2 ∈ (run inp s).2.
Proof. apply Runs.run_call. Qed.

Lemma sent_plus_reply_witness :
  ∃ text,
    truthy (user_input (sample_inputs (Some "I am happy") (Reply (Some "Cheers"))) new_session)
    = Some text
    ∧ SEED ++ [ {| role := "user";
                   content := request_content
                     (filter_context "Any" "Napa Valley (USA)" (price_range_str 20 80))
                     "I am happy" |} ]
      = log (initialize new_session)
        ++ [ {| role := "user";
                content := request_content
                  (filters_of (sample_inputs (Some "I am happy") (Reply (Some "Cheers"))))
                  text |} ]
    ∧ log (run (sample_inputs (Some "I am happy") (Reply (Some "Cheers"))) new_session).1
      = (SEED ++ [ {| role := "user";
                      content := request_content
                        (filter_context "Any" "Napa Valley (USA)" (price_range_str 20 80))
                        "I am happy" |} ])
        ++ [ {| role := "assistant"; content := "Cheers" |} ]
    ∧ filter is_completion
        (run (sample_inputs (Some "I am happy") (Reply (Some "Cheers"))) new_session).2
      = [ Completion
            (SEED ++ [ {| role := "user";
                          content := request_content
                            (filter_context "Any" "Napa Valley (USA)" (price_range_str 20 80))
                            "I am happy" |} ]) ]
    ∧ Placeholder "Cheers"
      ∈ (run (sample_inputs (Some "I am happy") (Reply (Some "Cheers"))) new_session).2.
Proof.
  refine (sent_plus_reply (sample_inputs (Some "I am happy") (Reply (Some "Cheers")))
            new_session
            (SEED ++ [ {| role := "user";
                          content := request_content
                            (filter_context "Any" "Napa Valley (USA)" (price_range_str 20 80))
                            "I am happy" |} ])
            _ _).
  - by constructor.
  - apply (bool_decide_unpack _). by vm_compute.
Defined.

(** X9.  Requests accumulate: when two runs in a row call the client, the
    second request is the first one followed by the first reply and the
    new user message.  The earlier user messages are sent again with the
    filter context of their own turn. *)
Theorem requests_accumulate (inp1 inp2 : inputs) (s : session)
    (request1 request2 : list message) :
  wf s →
  Completion request1 ∈ (run inp1 s).2 →
  Completion request2 ∈ (run inp2 (run inp1 s).1).2 →
  ∃ text,
    truthy (user_input inp2 (run inp1 s).1) = Some text
    ∧ request2
      = request1
        ++ [ {| role := "assistant"; content := (respond (client inp1 request1)).2 |};
             {| role := "user"; content := request_content (filters_of inp2) text |} ].
Proof.
  intros Hwf H1 H2.
  destruct (Runs.run_call inp1 s request1 Hwf H1) as (_ & _ & _ & Hlog & _).
  destruct (Runs.run_call inp2 _ request2 (wf_run inp1 s Hwf) H2)
    as (text & Hin & -> & _).
  exists text. split; [done|].
  destruct (initialize_log (run inp1 s).1) as [->|[Hnil _]].
  - by rewrite Hlog, <- app_assoc.
  - rewrite Hlog in Hnil. by destruct request1.
Qed.

Lemma requests_accumulate_witness :
  let first := sample_inputs (Some "I am happy") (Reply (Some "Cheers")) in
  let second := sample_inputs (Some "Something red") (OtherError "timed out") in
  let request1 :=
    SEED ++ [ {| role := "user"; content := request_content (filters_of first) "I am happy" |} ] in
  ∃ text,
    truthy (user_input second (run first new_session).1) = Some text
    ∧ request1
      ++ [ {| role := "assistant"; content := "Cheers" |};
           {| role := "user"; content := request_content (filters_of second) "Something red" |} ]
      = request1
        ++ [ {| role := "assistant"; content := (respond (client first request1)).2 |};
             {| role := "user"; content := request_content (filters_of second) text |} ].
Proof.
  refine (requests_accumulate
            (sample_inputs (Some "I am happy") (Reply (Some "Cheers")))
            (sample_inputs (Some "Something red") (OtherError "timed out"))
            new_session
            (SEED ++ [ {| role := "user";
                          content := request_content
                            (filter_context "Any" "Napa Valley (USA)" (price_range_str 20 80))
                            "I am happy" |} ])
            _ _ _ _).
  - by constructor.
  - apply (bool_decide_unpack _). by vm_compute.
  - apply (bool_decide_unpack _). by vm_compute.
Defined.

(** X10.  A pressed suggested-prompt button decides the input of the run:
    the prompt of the last pressed button is submitted, whatever was typed
    in the chat box and whatever prompt was selected before, and with a key
    the run shows it as the user message and sends it to the client behind
    the filter context. *)
Theorem preset_prompt_wins (inp : inputs) (s : session) (i : nat) (prompt : string) :
  suggested_prompts !! i = Some prompt →
  button inp i = true →
  (∀ j, i < j → button inp j = false) →
  key_in_secrets (secrets inp) ∨ key_in_environ (environ inp) →
  user_input inp s = Some prompt
  ∧ ChatMessage "user" prompt ∈ (run inp s).2
  ∧ ∃ request,
      Completion request ∈ (run inp s).2
      ∧ last request
        = Some {| role := "user"; content := request_content (filters_of inp) prompt |}.
Proof.
  intros Hi Hb Hlater Hkey.
  assert (user_input inp s = Some prompt ∧ truthy (Some prompt) = Some prompt) as [Hu Ht].
  { unfold user_input, choose_input, buttons, press.
    destruct i as [|[|[|i]]]; [| | |done]; injection Hi as <-.
    - rewrite Hb, (Hlater 1), (Hlater 2) by lia. done.
    - rewrite Hb, (Hlater 2) by lia. by destruct (button inp 0).
    - rewrite Hb. by destruct (button inp 0), (button inp 1). }
  split; [done|]. rewrite (run_with_key inp s Hkey).
  rewrite <- Hu in Ht at 1.
  destruct (Turn.interact_turn inp s prompt Ht) as (s1 & _ & _ & _ & ->).
  rewrite Turn.handle_turn_eq. simpl. split.
  - rewrite elem_of_app, elem_of_cons. auto.
  - eexists. split.
    + rewrite elem_of_app, !elem_of_cons. right. right. right. by left.
    + apply Turn.last_log_append.
Qed.

Lemma preset_prompt_wins_witness :
  let inp :=
    {| secrets := ∅; environ := {[ "OPENAI_API_KEY" := "sk-test" ]};
       selected_grape := "Merlot"; selected_region := "Any";
       min_price := 10; max_price := 500;
       button := λ i, bool_decide (i = 1); chat_input := Some "typed text";
       client := λ _, Reply (Some "Cheers") |} in
  user_input inp new_session = Some "Need a relaxing wine after a long day."
  ∧ ChatMessage "user" "Need a relaxing wine after a long day." ∈ (run inp new_session).2
  ∧ ∃ request,
      Completion request ∈ (run inp new_session).2
      ∧ last request
        = Some {| role := "user";
                  content := request_content (filters_of inp)
                               "Need a relaxing wine after a long day." |}.
Proof.
  refine (preset_prompt_wins
    {| secrets := ∅; environ := {[ "OPENAI_API_KEY" := "sk-test" ]};
       selected_grape := "Merlot"; selected_region := "Any";
       min_price := 10; max_price := 500;
       button := λ i, bool_decide (i = 1); chat_input := Some "typed text";
       client := λ _, Reply (Some "Cheers") |}
    new_session 1 "Need a relaxing wine after a long day." eq_refl eq_refl _ _).
  - intros j Hj. apply bool_decide_eq_false. lia.
  - right. by exists "sk-test".
Defined.

(** ** Lines and trimming of the reply *)

(** X11.  Splitting a text into lines and joining the lines gives the text
    back.  Hence, when the text has more than one line, it is the lines
    before the last, a newline and the last line: removing the marker line
    removes that line and the newline before it, nothing else. *)
Theorem lines_round_trip (raw : string) :
  PyStr.join PyStr.nl (PyStr.split PyStr.nl raw) = raw
  ∧ ∀ line,
      py_last (PyStr.split PyStr.nl raw) = Some line →
      py_init (PyStr.split PyStr.nl raw) ≠ [] →
      raw = PyStr.join PyStr.nl (py_init (PyStr.split PyStr.nl raw)) +:+ PyStr.nl +:+ line.
Proof.
  assert (PyStr.join PyStr.nl (PyStr.split PyStr.nl raw) = raw) as Hjoin.
  { unfold PyStr.split. apply Lines.join_split_fuel; [done | lia]. }
  split; [done|]. intros line Hlast Hinit.
  rewrite <- Hjoin at 1. rewrite (Lines.init_last _ line Hlast) at 1.
  by apply Lines.join_snoc.
Qed.

Lemma lines_round_trip_witness :
  "Line1" +:+ PyStr.nl +:+ "Image Search Suggestion: Foo"
  = PyStr.join PyStr.nl
      (py_init (PyStr.split PyStr.nl ("Line1" +:+ PyStr.nl +:+ "Image Search Suggestion: Foo")))
    +:+ PyStr.nl +:+ "Image Search Suggestion: Foo".
Proof.
  refine (proj2 (lines_round_trip ("Line1" +:+ PyStr.nl +:+ "Image Search Suggestion: Foo"))
            "Image Search Suggestion: Foo" eq_refl _).
  by vm_compute.
Defined.

Lemma extract_reply_trimmed (text : string) :
  PyStr.strip text = text →
  PyStr.strip (extract_suggestion text).2 = (extract_suggestion text).2.
Proof.
  intros Htext. unfold extract_suggestion.
  repeat case_match; simpl; by rewrite ?Lines.strip_idem.
Qed.

(** X12.  The assistant text that a turn stores and shows never starts or
    ends with white space, whether it is the completion, the completion
    without its marker line or one of the two apologies; a suggestion that
    is extracted is trimmed as well. *)
Theorem reply_is_trimmed (outcome : completion) :
  PyStr.strip (respond outcome).2 = (respond outcome).2
  ∧ ∀ text,
      PyStr.strip <$> (extract_suggestion text).1 = (extract_suggestion text).1.
Proof.
  split.
  - unfold respond. destruct outcome as [[text|]|e|e]; [|by vm_compute..].
    pose proof (extract_reply_trimmed (PyStr.strip text) (Lines.strip_idem text)) as H.
    by destruct (extract_suggestion (PyStr.strip text)).
  - intros text. unfold extract_suggestion.
    repeat case_match; simpl; by rewrite ?Lines.strip_idem.
Qed.
